(** * shahryar-app: the persistence service and the live audio bridge

    A shallow embedding of the two pieces of logic of the repository:

    - the Express server (its nine routes over [database.json]), as pure
      functions from a request and the state of the file to a response and
      the new state of the file;
    - the [useLiveGemini] hook, as a state machine over the hook's refs and
      React state, driven by the callbacks the vendor session fires.

    JavaScript objects are finite maps from property names to JSON values
    ([gmap string Value]); a property that is [undefined] is an absent key,
    which is also what [JSON.stringify] makes of it. Request bodies are
    objects, and the stored document, when it parses, is [null] or an object
    whose two collections are arrays of objects; with these types no handler
    reaches its own [catch] block, which is therefore not modelled. *)

From stdpp Require Import base strings gmap list pretty.

#[local] Set Warnings "-register-all".
#[local] Open Scope string_scope.

(** ** JSON values as JavaScript sees them *)

Module Js.

Inductive Value :=
| VNull
| VBool (b : bool)
| VNum (n : Z)
| VStr (s : string)
| VArr (items : list Value)
| VObj (fields : gmap string Value).

(** The result of reading a property is an [option Value]: [None] is
    [undefined]. Numbers are kept as integers; the server only tests them
    for truthiness and equality.

    [!v] is [negb (truthy v)]. *)
Definition truthy (v : option Value) : bool :=
  match v with
  | None => false
  | Some VNull => false
  | Some (VBool b) => b
  | Some (VNum n) => negb (n =? 0)%Z
  | Some (VStr s) => negb (String.eqb s "")
  | Some (VArr _) => true
  | Some (VObj _) => true
  end.

(** [a === b]. Arrays and objects are compared by reference; two values that
    come out of two different [JSON.parse] calls (the file, a request body)
    are never the same reference. *)
Definition strict_eq (a b : option Value) : bool :=
  match a, b with
  | None, None => true
  | Some VNull, Some VNull => true
  | Some (VBool x), Some (VBool y) => Bool.eqb x y
  | Some (VNum x), Some (VNum y) => (x =? y)%Z
  | Some (VStr x), Some (VStr y) => String.eqb x y
  | _, _ => false
  end.

(** [{ ...o, k: v }] where [v] may be [undefined]. *)
Definition set_prop (k : string) (v : option Value) (o : gmap string Value)
  : gmap string Value :=
  match v with
  | Some x => <[k := x]> o
  | None => delete k o
  end.

(** [Array.prototype.findIndex]; [None] stands for the result [-1]. *)
Fixpoint findIndex {A : Type} (p : A → bool) (l : list A) : option nat :=
  match l with
  | [] => None
  | x :: l' => if p x then Some 0 else S <$> findIndex p l'
  end.

(** [Array.prototype.find]; [None] stands for [undefined]. *)
Definition find {A : Type} (p : A → bool) (l : list A) : option A :=
  List.find p l.

(** [Array.prototype.filter]. *)
Definition filter {A : Type} (p : A → bool) (l : list A) : list A :=
  List.filter p l.

End Js.

(** ** The persistence service (the Express server) *)

Module Server.
Import Js.

(** The document the handlers work on: [{ users, sessions }]. *)
Record Db := mkDb {
  users : list (gmap string Value);
  sessions : list (gmap string Value)
}.

(** What [JSON.parse] makes of the text of [database.json]: [null], or an
    object whose [users] and [sessions] are arrays of objects when they are
    there ([None]: the key is absent, or holds a falsy value). *)
Inductive Parsed :=
| PNull
| PDoc (raw_users raw_sessions : option (list (gmap string Value))).

(** The state of [database.json] on disk. *)
Inductive FileState :=
| Missing                 (* fs.existsSync(DB_FILE) is false *)
| Unreadable              (* fs.readFileSync throws *)
| Garbled                 (* JSON.parse throws *)
| Holds (p : Parsed).

(** What a request sees of its environment. *)
Record Env := mkEnv {
  date_now : Z;          (* Date.now() *)
  date_faIR : string;    (* new Date().toLocaleDateString('fa-IR') *)
  write_ok : bool        (* does fs.writeFileSync succeed? *)
}.

Inductive Exn := ENOENT | SyntaxError | TypeError.

Inductive Result (A : Type) :=
| Ok (a : A)
| Throw (e : Exn).
Arguments Ok {A} a.
Arguments Throw {A} e.

Definition empty_db : Db := mkDb [] [].

(** The body of the [try] block of [getDb]. *)
Definition getDb_try (fs : FileState) : Result Db :=
  match fs with
  | Missing => Ok empty_db
  | Unreadable => Throw ENOENT
  | Garbled => Throw SyntaxError
  | Holds PNull => Throw TypeError
  | Holds (PDoc us ss) =>
      let us' := match us with Some l => l | None => [] end in
      let ss' := match ss with Some l => l | None => [] end in
      Ok (mkDb us' ss')
  end.

Definition getDb (fs : FileState) : Db :=
  match getDb_try fs with
  | Ok db => db
  | Throw _ => empty_db
  end.

(** [saveDb data]: the result and the file afterwards. *)
Definition saveDb (env : Env) (data : Db) (fs : FileState) : bool * FileState :=
  if write_ok env
  then (true, Holds (PDoc (Some (users data)) (Some (sessions data))))
  else (false, fs).

(** The file the server creates when it starts and finds none. *)
Definition fresh_file : FileState := Holds (PDoc (Some []) (Some [])).

Record Response := mkResponse {
  status : nat;
  body : Value
}.

(** [res.status(code).json({ error: msg })] *)
Definition error_response (code : nat) (msg : string) : Response :=
  mkResponse code (VObj {[ "error" := VStr msg ]}).

(** [res.json(v)] *)
Definition json (v : Value) : Response := mkResponse 200 v.

(** *** POST /api/auth/register *)

Definition newUser (env : Env) (phone password name : option Value)
  : gmap string Value :=
  set_prop "customInstructions" (Some (VStr ""))
  (set_prop "traits" (Some (VArr []))
  (set_prop "learnedData" (Some (VArr []))
  (set_prop "joinedDate" (Some (VStr (date_faIR env)))
  (set_prop "bio" (Some (VStr "کاربر جدید"))
  (set_prop "email" (Some (VStr ""))
  (set_prop "name" name
  (set_prop "password" password
  (set_prop "phone" phone
  (set_prop "id" (Some (VStr (pretty (date_now env)))) ∅))))))))).

Definition register (env : Env) (req : gmap string Value) (fs : FileState)
  : Response * FileState :=
  let phone := req !! "phone" in
  let password := req !! "password" in
  let name := req !! "name" in
  if negb (truthy phone) || negb (truthy password) || negb (truthy name)
  then (error_response 400 "لطفا تمام فیلدها را پر کنید.", fs)
  else
    let db := getDb fs in
    match find (λ u, strict_eq (u !! "phone") phone) (users db) with
    | Some _ => (error_response 409 "این شماره تلفن قبلا ثبت شده است.", fs)
    | None =>
        let u := newUser env phone password name in
        let db' := mkDb (users db ++ [u]) (sessions db) in
        let '(saved, fs') := saveDb env db' fs in
        if saved
        then (json (VObj (delete "password" u)), fs')
        else (error_response 500 "خطا در ذخیره سازی", fs')
    end.

(** *** POST /api/auth/login *)

Definition login (req : gmap string Value) (fs : FileState)
  : Response * FileState :=
  let phone := req !! "phone" in
  let password := req !! "password" in
  if negb (truthy phone) || negb (truthy password)
  then (error_response 400 "نام کاربری و رمز عبور الزامی است.", fs)
  else
    let db := getDb fs in
    match find (λ u, strict_eq (u !! "phone") phone) (users db) with
    | None => (error_response 404 "حساب کاربری با این شماره یافت نشد.", fs)
    | Some user =>
        if negb (strict_eq (user !! "password") password)
        then (error_response 401 "رمز عبور اشتباه است.", fs)
        else (json (VObj (delete "password" user)), fs)
    end.

(** *** POST /api/user/update *)

Definition update (env : Env) (updatedUser : gmap string Value) (fs : FileState)
  : Response * FileState :=
  if negb (truthy (updatedUser !! "id"))
  then (error_response 400 "ID required", fs)
  else
    let db := getDb fs in
    match findIndex (λ u, strict_eq (u !! "id") (updatedUser !! "id")) (users db) with
    | Some index =>
        let currentPass := (users db !! index) ≫= (λ u, u !! "password") in
        let db' := mkDb (<[index := set_prop "password" currentPass updatedUser]> (users db))
                        (sessions db) in
        let '(_, fs') := saveDb env db' fs in
        (json (VObj updatedUser), fs')
    | None => (error_response 404 "User not found", fs)
    end.

(** *** GET /api/user/:id *)

Definition getUser (id : string) (fs : FileState) : Response * FileState :=
  let db := getDb fs in
  match find (λ u, strict_eq (u !! "id") (Some (VStr id))) (users db) with
  | Some user => (json (VObj (delete "password" user)), fs)
  | None => (error_response 404 "User not found", fs)
  end.

(** *** GET /api/sessions/:userId *)

Definition listSessions (userId : string) (fs : FileState) : Response * FileState :=
  let db := getDb fs in
  let found := filter (λ s, strict_eq (s !! "userId") (Some (VStr userId))) (sessions db) in
  (json (VArr (VObj <$> found)), fs).

(** *** POST /api/sessions *)

Definition upsertSession (env : Env) (session : gmap string Value) (fs : FileState)
  : Response * FileState :=
  let db := getDb fs in
  let db' :=
    match findIndex (λ s, strict_eq (s !! "id") (session !! "id")) (sessions db) with
    | Some index => mkDb (users db) (<[index := session]> (sessions db))
    | None => mkDb (users db) (sessions db ++ [session])
    end in
  let '(_, fs') := saveDb env db' fs in
  (json (VObj session), fs').

(** *** DELETE /api/sessions/:id *)

Definition deleteSession (env : Env) (id : string) (fs : FileState)
  : Response * FileState :=
  let db := getDb fs in
  let initialLen := length (sessions db) in
  let kept := filter (λ s, negb (strict_eq (s !! "id") (Some (VStr id)))) (sessions db) in
  if negb (Nat.eqb (length kept) initialLen)
  then
    let '(_, fs') := saveDb env (mkDb (users db) kept) fs in
    (json (VObj {[ "success" := VBool true ]}), fs')
  else (error_response 404 "Session not found", fs).

(** *** The routes together *)

Inductive Request :=
| Register (req : gmap string Value)
| Login (req : gmap string Value)
| UpdateIdentity (req : gmap string Value)
| GetIdentity (id : string)
| ListSessions (userId : string)
| UpsertSession (req : gmap string Value)
| DeleteSession (id : string).

Definition handle (env : Env) (r : Request) (fs : FileState) : Response * FileState :=
  match r with
  | Register req => register env req fs
  | Login req => login req fs
  | UpdateIdentity req => update env req fs
  | GetIdentity id => getUser id fs
  | ListSessions userId => listSessions userId fs
  | UpsertSession req => upsertSession env req fs
  | DeleteSession id => deleteSession env id fs
  end.

(** The file after a sequence of requests, each with its own environment. *)
Definition run (calls : list (Env * Request)) (fs : FileState) : FileState :=
  foldl (λ f c, (handle c.1 c.2 f).2) fs calls.


(** The two collections as the handlers see them. *)
Definition identities (fs : FileState) : list (gmap string Value) := users (getDb fs).
Definition stored_sessions (fs : FileState) : list (gmap string Value) := sessions (getDb fs).

(** How many records of [l] have property [k] strictly equal to [v]. *)
Definition count_with (k : string) (v : option Value) (l : list (gmap string Value)) : nat :=
  length (filter (λ o, strict_eq (o !! k) v) l).

(** [x] is the first element of [l] that satisfies [p], and it stands at
    index [i]: the element [find] and [findIndex] are specified to pick. *)
Definition first_with {A : Type} (p : A → bool) (l : list A) (i : nat) (x : A) : Prop :=
  l !! i = Some x ∧ p x = true ∧ ∀ j y, (j < i)%nat → l !! j = Some y → p y = false.


(** The session array after lines 167-172 of the server have run on it. *)
Definition upserted (session : gmap string Value) (l : list (gmap string Value))
  : list (gmap string Value) :=
  match findIndex (λ s, strict_eq (s !! "id") (session !! "id")) l with
  | Some index => <[index := session]> l
  | None => l ++ [session]
  end.


End Server.

(** ** The audio bridge (the useLiveGemini hook) *)

Module Bridge.

(** Times on an audio clock are JavaScript numbers. The hook only adds them
    and takes [Math.max] of them, so the model is parametric in the carrier;
    [max_l] is all the scheduling relies on. *)
Class Seconds (T : Type) := {
  zero : T;
  add : T → T → T;
  max : T → T → T;
  le : T → T → Prop;
  max_l : ∀ a b, le b a → max a b = a
}.

#[export] Instance Z_Seconds : Seconds Z := {|
  zero := 0%Z;
  add := Z.add;
  max := Z.max;
  le := Z.le;
  max_l := Z.max_l
|}.

Record FunctionCall := mkCall {
  fc_id : string;
  fc_name : string;
  fc_query : string            (* (fc.args as any).query *)
}.

Record FunctionResponse := mkFunctionResponse {
  fr_id : string;
  fr_name : string;
  fr_result : string
}.

(** What the hook reads of a [LiveServerMessage]. *)
Record LiveServerMessage := mkMessage {
  toolCall : option (list FunctionCall);
  inlineData : option string;  (* serverContent?.modelTurn?.parts?.[0]?.inlineData?.data *)
  interrupted : bool           (* serverContent?.interrupted *)
}.

Definition dquote : string := String (Ascii.ascii_of_nat 34) EmptyString.

Definition getLocalKnowledge (query : string) : string :=
  "اطلاعات برای " ++ dquote ++ query ++ dquote ++
  ": رفسنجان بزرگترین تولید کننده پسته در جهان است. جاذبه‌های گردشگری شامل خانه حاج آقا علی، موزه ریاست جمهوری و بازار تاریخی است.".

(** [if (base64Audio)]: the payload, when it is there and not the empty string. *)
Definition base64Audio (msg : LiveServerMessage) : option string :=
  match inlineData msg with
  | Some data => if String.eqb data "" then None else Some data
  | None => None
  end.

Section Hook.
Context {T : Type} `{Seconds T}.

(** [decodeAudioData(decode(data), ctx, 24000, 1)] lives in
    services/audioUtils; the hook only reads the [duration] of the buffer it
    returns, which is taken here as a parameter, defined on every payload. *)
Variable decodeAudioData : string → T.

Record AudioContext := mkContext {
  currentTime : T;
  closed : bool
}.

(** A buffer source node: an object with an identity (its index in [nodes]). *)
Record AudioBufferSourceNode := mkSource {
  duration : T;         (* source.buffer.duration *)
  startedAt : T;        (* the argument of source.start *)
  stopped : bool        (* source.stop() was called *)
}.

Record Hook := mkHook {
  (* React state *)
  isConnected : bool;
  isSpeaking : bool;
  error : option string;
  (* refs *)
  inputAudioContextRef : option AudioContext;
  outputAudioContextRef : option AudioContext;
  sessionPromiseRef : bool;                 (* is there a session promise? *)
  nextStartTimeRef : T;
  sourcesRef : gset nat;
  (* the world the hook acts on *)
  nodes : list AudioBufferSourceNode;       (* every source node created so far *)
  toolResponses : list FunctionResponse     (* sent with session.sendToolResponse *)
}.

Definition initial : Hook :=
  mkHook false false None None None false zero ∅ [] [].

Definition setIsConnected (b : bool) (st : Hook) : Hook :=
  mkHook b (isSpeaking st) (error st) (inputAudioContextRef st)
         (outputAudioContextRef st) (sessionPromiseRef st) (nextStartTimeRef st)
         (sourcesRef st) (nodes st) (toolResponses st).

Definition setIsSpeaking (b : bool) (st : Hook) : Hook :=
  mkHook (isConnected st) b (error st) (inputAudioContextRef st)
         (outputAudioContextRef st) (sessionPromiseRef st) (nextStartTimeRef st)
         (sourcesRef st) (nodes st) (toolResponses st).

Definition setError (e : string) (st : Hook) : Hook :=
  mkHook (isConnected st) (isSpeaking st) (Some e) (inputAudioContextRef st)
         (outputAudioContextRef st) (sessionPromiseRef st) (nextStartTimeRef st)
         (sourcesRef st) (nodes st) (toolResponses st).

Definition setNextStartTime (t : T) (st : Hook) : Hook :=
  mkHook (isConnected st) (isSpeaking st) (error st) (inputAudioContextRef st)
         (outputAudioContextRef st) (sessionPromiseRef st) t
         (sourcesRef st) (nodes st) (toolResponses st).

Definition setSources (s : gset nat) (st : Hook) : Hook :=
  mkHook (isConnected st) (isSpeaking st) (error st) (inputAudioContextRef st)
         (outputAudioContextRef st) (sessionPromiseRef st) (nextStartTimeRef st)
         s (nodes st) (toolResponses st).

Definition setNodes (l : list AudioBufferSourceNode) (st : Hook) : Hook :=
  mkHook (isConnected st) (isSpeaking st) (error st) (inputAudioContextRef st)
         (outputAudioContextRef st) (sessionPromiseRef st) (nextStartTimeRef st)
         (sourcesRef st) l (toolResponses st).

Definition sendToolResponse (r : FunctionResponse) (st : Hook) : Hook :=
  mkHook (isConnected st) (isSpeaking st) (error st) (inputAudioContextRef st)
         (outputAudioContextRef st) (sessionPromiseRef st) (nextStartTimeRef st)
         (sourcesRef st) (nodes st) (toolResponses st ++ [r]).

(** *** onmessage, reaction by reaction *)

(** Lines 104-124: answer every [search_knowledge_base] call. *)
Definition toolCallReaction (msg : LiveServerMessage) (st : Hook) : Hook :=
  match toolCall msg with
  | Some calls =>
      foldl (λ s fc,
               if String.eqb (fc_name fc) "search_knowledge_base"
               then sendToolResponse
                      (mkFunctionResponse (fc_id fc) (fc_name fc)
                         (getLocalKnowledge (fc_query fc))) s
               else s)
            st calls
  | None => st
  end.

(** [s.stop()] on the node with identity [i]. *)
Definition stop (i : nat) (l : list AudioBufferSourceNode) : list AudioBufferSourceNode :=
  match l !! i with
  | Some s => <[i := mkSource (duration s) (startedAt s) true]> l
  | None => l
  end.

(** How a reaction leaves the handler: it falls through to the next
    statement, or it has executed [return]. *)
Inductive Outcome :=
| Continue (st : Hook)
| Return (st : Hook).

(** Lines 127-146: schedule the audio chunk of the message, if it has one.
    The clock is read, and the cursor raised to it, before the buffer is
    decoded; the handler is taken to run to its end before the next
    callback, so the [await] of the decoder is no scheduling point here. *)
Definition audioChunkReaction (msg : LiveServerMessage) (st : Hook) : Outcome :=
  match base64Audio msg with
  | Some data =>
      let st := setIsSpeaking true st in
      match outputAudioContextRef st with
      | None => Return st
      | Some ctx =>
          let st := setNextStartTime (max (nextStartTimeRef st) (currentTime ctx)) st in
          let audioBuffer := decodeAudioData data in
          let source := length (nodes st) in          (* ctx.createBufferSource() *)
          let st := setNodes (nodes st ++ [mkSource audioBuffer (nextStartTimeRef st) false]) st in
          let st := setNextStartTime (add (nextStartTimeRef st) audioBuffer) st in
          Continue (setSources ({[source]} ∪ sourcesRef st) st)
      end
  | None => Continue st
  end.

(** Lines 148-154: the remote side was interrupted. *)
Definition interruptionReaction (msg : LiveServerMessage) (st : Hook) : Hook :=
  if interrupted msg
  then
    let st := setNodes (foldr stop (nodes st) (elements (sourcesRef st))) st in
    let st := setSources ∅ st in
    let st := setNextStartTime zero st in
    setIsSpeaking false st
  else st.

Definition onmessage (msg : LiveServerMessage) (st : Hook) : Hook :=
  match audioChunkReaction msg (toolCallReaction msg st) with
  | Continue st' => interruptionReaction msg st'
  | Return st' => st'
  end.

(** The listener of a source's [ended] event (lines 138-141). *)
Definition onended (source : nat) (st : Hook) : Hook :=
  let st := setSources (sourcesRef st ∖ {[source]}) st in
  if decide (size (sourcesRef st) = 0) then setIsSpeaking false st else st.

(** *** The other callbacks, connect and disconnect *)

Definition onopen (st : Hook) : Hook := setIsConnected true st.

Definition onclose (st : Hook) : Hook := setIsSpeaking false (setIsConnected false st).

Definition onerror (st : Hook) : Hook := setIsConnected false (setError "Connection Error" st).

(** How far [connect] gets before it throws, if it does. *)
Inductive ConnectOutcome :=
| NoApiKey                      (* thrown before the audio contexts exist *)
| Failed (message : string)     (* getUserMedia or getSystemInstruction rejects *)
| Established.                  (* ai.live.connect returned its promise *)

Definition newContexts (st : Hook) : Hook :=
  mkHook (isConnected st) (isSpeaking st) (error st)
         (Some (mkContext zero false)) (Some (mkContext zero false))
         (sessionPromiseRef st) (nextStartTimeRef st)
         (sourcesRef st) (nodes st) (toolResponses st).

Definition connect (o : ConnectOutcome) (st : Hook) : Hook :=
  match o with
  | NoApiKey => setError "API Key missing" st
  | Failed message =>
      setError (if String.eqb message "" then "Failed to connect" else message)
               (newContexts st)
  | Established =>
      let st := newContexts st in
      mkHook (isConnected st) (isSpeaking st) (error st)
             (inputAudioContextRef st) (outputAudioContextRef st)
             true (nextStartTimeRef st)
             (sourcesRef st) (nodes st) (toolResponses st)
  end.

Definition close (c : option AudioContext) : option AudioContext :=
  (λ ctx, mkContext (currentTime ctx) true) <$> c.

Definition disconnect (st : Hook) : Hook :=
  let st :=
    mkHook (isConnected st) (isSpeaking st) (error st)
           (close (inputAudioContextRef st)) (close (outputAudioContextRef st))
           (sessionPromiseRef st) (nextStartTimeRef st)
           (sourcesRef st) (nodes st) (toolResponses st) in
  setIsSpeaking false (setIsConnected false st).

(** The output channel's clock moves on by [dt]. *)
Definition elapse (dt : T) (st : Hook) : Hook :=
  mkHook (isConnected st) (isSpeaking st) (error st) (inputAudioContextRef st)
         ((λ ctx, mkContext (add (currentTime ctx) dt) (closed ctx)) <$> outputAudioContextRef st)
         (sessionPromiseRef st) (nextStartTimeRef st)
         (sourcesRef st) (nodes st) (toolResponses st).

(** *** The hook as a state machine *)

Inductive Event :=
| Connect (o : ConnectOutcome)
| Disconnect
| Open
| Message (msg : LiveServerMessage)
| Closed
| Errored
| Ended (source : nat)
| Elapse (dt : T).

Definition react (ev : Event) (st : Hook) : Hook :=
  match ev with
  | Connect o => connect o st
  | Disconnect => disconnect st
  | Open => onopen st
  | Message msg => onmessage msg st
  | Closed => onclose st
  | Errored => onerror st
  | Ended source => onended source st
  | Elapse dt => elapse dt st
  end.

(** The session's callbacks only exist once [connect] has created a session;
    an [ended] event only comes from a source node that exists. *)
Definition enabled (ev : Event) (st : Hook) : Prop :=
  match ev with
  | Open | Message _ | Closed | Errored => sessionPromiseRef st = true
  | Ended source => source < length (nodes st)
  | Connect _ | Disconnect | Elapse _ => True
  end.

Inductive reachable : Hook → Prop :=
| reachable_initial : reachable initial
| reachable_step st ev : reachable st → enabled ev st → reachable (react ev st).

(** Once a session exists the output context exists, and every active
    source is a node that was created. *)
Definition consistent (st : Hook) : Prop :=
  (sessionPromiseRef st = true → is_Some (outputAudioContextRef st)) ∧
  (∀ i, i ∈ sourcesRef st → (i < length (nodes st))%nat).

(** Events that may come between two audio chunks of one turn: time
    passing, sources running out, the session opening. *)
Definition between_chunks (ev : Event) : Prop :=
  match ev with
  | Elapse _ | Ended _ | Open => True
  | Connect _ | Disconnect | Message _ | Closed | Errored => False
  end.

(** The hook after a sequence of events. *)
Definition play (evs : list Event) (st : Hook) : Hook :=
  foldl (λ s ev, react ev s) st evs.

End Hook.

End Bridge.

(** ** Vocabulary for the tool answers and the playback invariant *)

Module Vocabulary.
Import Bridge.

(** The responses [onmessage] owes to the tool calls of a message: one for
    every call named search_knowledge_base, in the order of the calls. *)
Definition answers (msg : LiveServerMessage) : list FunctionResponse :=
  match toolCall msg with
  | Some calls =>
      (λ fc, mkFunctionResponse (fc_id fc) (fc_name fc) (getLocalKnowledge (fc_query fc)))
        <$> List.filter (λ fc, String.eqb (fc_name fc) "search_knowledge_base") calls
  | None => []
  end.

(** Every active source is a node that has not been stopped, and speaking
    is only on while a source is active. *)
Definition playing_consistently {T : Type} (st : @Hook T) : Prop :=
  (∀ i, i ∈ sourcesRef st → ∃ s, nodes st !! i = Some s ∧ stopped s = false) ∧
  (isSpeaking st = true → sourcesRef st ≠ ∅).

End Vocabulary.

(** ** Sample requests and messages *)

Module Scenario.
Import Js Server Bridge.

Definition at_time (now : Z) : Env := mkEnv now "1404/8/11" true.

Definition credentials (phone password name : string) : gmap string Value :=
  {[ "phone" := VStr phone; "password" := VStr password; "name" := VStr name ]}.

Definition ali : gmap string Value := credentials "0912" "pass" "Ali".
Definition sara : gmap string Value := credentials "0913" "word" "Sara".
Definition reza : gmap string Value := credentials "0912" "key" "Reza".

(** The identity register stores for [ali] at time 1000. *)
Definition ali_stored : gmap string Value :=
  newUser (at_time 1000) (Some (VStr "0912")) (Some (VStr "pass")) (Some (VStr "Ali")).

Definition ali_registered : FileState :=
  run [(at_time 1000, Register ali)] fresh_file.

(** An update of the identity registered at time 2000 that gives it the
    phone of another identity. *)
Definition sara_takes_alis_phone : gmap string Value :=
  {[ "id" := VStr "2000"; "phone" := VStr "0912"; "name" := VStr "Sara" ]}.

Definition two_identities_one_phone : FileState :=
  run [ (at_time 1000, Register ali);
        (at_time 2000, Register sara);
        (at_time 3000, UpdateIdentity sara_takes_alis_phone) ] fresh_file.

(** An update of [ali] that carries a password of its own. *)
Definition ali_renamed : gmap string Value :=
  {[ "id" := VStr "1000"; "phone" := VStr "0912"; "name" := VStr "Ali Agha";
     "password" := VStr "intruder" ]}.

Definition chat (id userId title : string) : gmap string Value :=
  {[ "id" := VStr id; "userId" := VStr userId; "title" := VStr title ]}.

Definition one_session : FileState :=
  run [(at_time 4000, UpsertSession (chat "s1" "1000" "first"))] fresh_file.

(** A decoder that makes one time unit of every character of the payload. *)
Definition one_unit_per_character (data : string) : Z := Z.of_nat (String.length data).

Definition chunk (data : string) : LiveServerMessage :=
  mkMessage None (Some data) false.

Definition interruption : LiveServerMessage :=
  mkMessage None None true.

(** The hook once [connect] has created its session. *)
Definition connected : @Hook Z := connect Established initial.

End Scenario.

(** * Properties *)

(** ** Arrays and strict equality *)

Module JsFacts.
Import Js.
#[local] Open Scope nat_scope.
#[local] Open Scope list_scope.

Lemma strict_eq_true (a b : option Value) : strict_eq a b = true → a = b.
Proof.
  destruct a as [[]|], b as [[]|]; simpl; try discriminate; try done.
  - intros E. apply Bool.eqb_prop in E. by subst.
  - intros E. apply Z.eqb_eq in E. by subst.
  - intros E. apply String.eqb_eq in E. by subst.
Qed.

Lemma strict_eq_refl_l (a b : option Value) :
  strict_eq a b = true → strict_eq a a = true.
Proof. intros E. by rewrite (strict_eq_true _ _ E) in E |- *. Qed.


Lemma strict_eq_str (s : string) : strict_eq (Some (VStr s)) (Some (VStr s)) = true.
Proof. simpl. apply String.eqb_refl. Qed.

Section Arrays.
Context {A : Type}.
Implicit Types (p : A → bool) (l : list A).

Lemma findIndex_Some p l i :
  findIndex p l = Some i →
  ∃ x, l !! i = Some x ∧ p x = true ∧ ∀ j y, j < i → l !! j = Some y → p y = false.
Proof.
  revert i. induction l as [|a l IH]; intros i; simpl; [done|].
  destruct (p a) eqn:Ea.
  - intros [= <-]. exists a. split_and!; [done|done|]. intros j y Hj. lia.
  - destruct (findIndex p l) as [k|] eqn:Ek; simpl; [|done].
    intros [= <-]. destruct (IH k eq_refl) as (x & Hx & Hp & Hlt).
    exists x. split_and!; [done|done|].
    intros [|j] y Hj; simpl.
    + by intros [= <-].
    + apply Hlt. lia.
Qed.

Lemma findIndex_None p l :
  findIndex p l = None ↔ ∀ x, x ∈ l → p x = false.
Proof.
  induction l as [|a l IH]; simpl.
  - split; [|done]. intros _ x Hx. by apply elem_of_nil in Hx.
  - destruct (p a) eqn:Ea.
    + split; [done|]. intros Hall. specialize (Hall a (list_elem_of_here _ _)). congruence.
    + destruct (findIndex p l) as [k|] eqn:Ek; simpl.
      * split; [done|]. intros Hall.
        assert (None = Some k) as Habs; [|done].
        symmetry. apply IH. intros x Hx. apply Hall. by apply list_elem_of_further.
      * split; [|done]. intros _ x Hx. apply elem_of_cons in Hx as [->|Hx]; [done|].
        destruct IH as [IH _]. by apply IH.
Qed.

Lemma find_None p l : find p l = None ↔ ∀ x, x ∈ l → p x = false.
Proof.
  unfold find. induction l as [|a l IH]; simpl.
  - split; [|done]. intros _ x Hx. by apply elem_of_nil in Hx.
  - destruct (p a) eqn:Ea.
    + split; [done|]. intros Hall. specialize (Hall a (list_elem_of_here _ _)). congruence.
    + rewrite IH. split.
      * intros Hall x Hx. apply elem_of_cons in Hx as [->|Hx]; [done|]. by apply Hall.
      * intros Hall x Hx. apply Hall. by apply list_elem_of_further.
Qed.

Lemma find_Some p l x :
  find p l = Some x →
  ∃ i, l !! i = Some x ∧ p x = true ∧ ∀ j y, j < i → l !! j = Some y → p y = false.
Proof.
  unfold find. induction l as [|a l IH]; simpl; [done|].
  destruct (p a) eqn:Ea.
  - intros [= <-]. exists 0. split_and!; [done|done|]. intros j y Hj. lia.
  - intros Hf. destruct (IH Hf) as (i & Hi & Hp & Hlt).
    exists (S i). split_and!; [done|done|].
    intros [|j] y Hj; simpl.
    + by intros [= <-].
    + apply Hlt. lia.
Qed.

Lemma find_findIndex p l :
  find p l = findIndex p l ≫= (l !!.).
Proof.
  unfold find. induction l as [|a l IH]; simpl; [done|].
  destruct (p a); [done|]. rewrite IH. by destruct (findIndex p l).
Qed.

Lemma filter_app p l1 l2 : filter p (l1 ++ l2) = filter p l1 ++ filter p l2.
Proof. unfold filter. apply List.filter_app. Qed.

Lemma elem_of_filter p l x : x ∈ filter p l ↔ x ∈ l ∧ p x = true.
Proof. unfold filter. rewrite !list_elem_of_In. apply List.filter_In. Qed.

Lemma filter_length_le p l : length (filter p l) ≤ length l.
Proof. unfold filter. apply List.filter_length_le. Qed.

Lemma filter_all p l : (∀ x, x ∈ l → p x = true) → filter p l = l.
Proof.
  unfold filter. induction l as [|a l IH]; simpl; [done|]. intros Hall.
  rewrite (Hall a (list_elem_of_here _ _)). f_equal. apply IH.
  intros x Hx. apply Hall. by apply list_elem_of_further.
Qed.

Lemma filter_length_eq p l :
  length (filter p l) = length l → ∀ x, x ∈ l → p x = true.
Proof.
  unfold filter. induction l as [|a l IH]; simpl.
  - intros _ x Hx. by apply elem_of_nil in Hx.
  - pose proof (List.filter_length_le p l) as Hle.
    destruct (p a) eqn:Ea; simpl; intros Hlen; [|lia].
    intros x Hx. apply elem_of_cons in Hx as [->|Hx]; [done|]. apply IH; [lia|done].
Qed.

Lemma filter_none p l : (∀ x, x ∈ l → p x = false) → filter p l = [].
Proof.
  unfold filter. induction l as [|a l IH]; simpl; [done|]. intros Hall.
  rewrite (Hall a (list_elem_of_here _ _)). apply IH.
  intros x Hx. apply Hall. by apply list_elem_of_further.
Qed.

Lemma filter_ext p q l : (∀ x, p x = q x) → filter p l = filter q l.
Proof. intros E. unfold filter. apply List.filter_ext. exact E. Qed.


End Arrays.

End JsFacts.

(** ** The persistence service *)

Module ServerFacts.
Import Js JsFacts Server.
#[local] Open Scope nat_scope.
#[local] Open Scope list_scope.

(** *** Reading and writing the document *)


Lemma identities_saved (us ss : list (gmap string Value)) :
  identities (Holds (PDoc (Some us) (Some ss))) = us.
Proof. reflexivity. Qed.

Lemma sessions_saved (us ss : list (gmap string Value)) :
  stored_sessions (Holds (PDoc (Some us) (Some ss))) = ss.
Proof. reflexivity. Qed.

Lemma saveDb_ok env data fs :
  write_ok env = true →
  saveDb env data fs = (true, Holds (PDoc (Some (users data)) (Some (sessions data)))).
Proof. unfold saveDb. by intros ->. Qed.

Lemma saveDb_failed env data fs :
  write_ok env = false → saveDb env data fs = (false, fs).
Proof. unfold saveDb. by intros ->. Qed.

(** Whatever the write does, the handlers see afterwards either the old
    document or the one they saved. *)
Lemma getDb_saveDb env data fs :
  getDb (saveDb env data fs).2 = if write_ok env then data else getDb fs.
Proof. unfold saveDb. destruct (write_ok env); [by destruct data|done]. Qed.


Lemma identities_saveDb env data fs :
  identities (saveDb env data fs).2 = if write_ok env then users data else identities fs.
Proof. unfold identities. rewrite getDb_saveDb. by destruct (write_ok env). Qed.

Lemma sessions_saveDb env data fs :
  stored_sessions (saveDb env data fs).2 =
  if write_ok env then sessions data else stored_sessions fs.
Proof. unfold stored_sessions. rewrite getDb_saveDb. by destruct (write_ok env). Qed.



(** C3 (the code as it is): when the write fails, POST /api/sessions answers
    200 with the record and leaves the file as it was. *)
Theorem C3_upsert_answers_200_when_write_fails
    (now : Z) (date : string) (session : gmap string Value) (fs : FileState) :
  upsertSession (mkEnv now date false) session fs = (mkResponse 200 (VObj session), fs).
Proof. reflexivity. Qed.

(** The sibling route: POST /api/auth/register checks the result of
    [saveDb] and answers 500 when the write fails. *)
Lemma register_answers_500_when_write_fails env req fs :
  truthy (req !! "phone") = true → truthy (req !! "password") = true →
  truthy (req !! "name") = true →
  find (λ u, strict_eq (u !! "phone") (req !! "phone")) (identities fs) = None →
  write_ok env = false →
  status (register env req fs).1 = 500 ∧ (register env req fs).2 = fs.
Proof.
  intros Hp Hw Hn Hnone Hfail. unfold register, identities in *.
  rewrite Hp, Hw, Hn, Hnone. simpl. by rewrite saveDb_failed.
Qed.

Lemma handle_frames (env : Env) (r : Request) (fs : FileState) :
  match r with
  | Register _ | Login _ | UpdateIdentity _ | GetIdentity _ =>
      stored_sessions (handle env r fs).2 = stored_sessions fs
  | UpsertSession _ | DeleteSession _ =>
      identities (handle env r fs).2 = identities fs
  | ListSessions _ => (handle env r fs).2 = fs
  end.
Proof.
  destruct r; simpl; unfold stored_sessions, identities.
  - unfold register. repeat (first [case_match | done]); simplify_eq/=;
      unfold saveDb in *; destruct (write_ok env); by simplify_eq/=.
  - unfold login. by repeat case_match.
  - unfold update. repeat (first [case_match | done]); simplify_eq/=;
      unfold saveDb in *; destruct (write_ok env); by simplify_eq/=.
  - unfold getUser. by repeat case_match.
  - done.
  - unfold upsertSession. repeat (first [case_match | done]); simplify_eq/=;
      unfold saveDb in *; destruct (write_ok env); by simplify_eq/=.
  - unfold deleteSession. repeat (first [case_match | done]); simplify_eq/=;
      unfold saveDb in *; destruct (write_ok env); by simplify_eq/=.
Qed.

(** C10: the identity routes leave the session collection as it was, and the
    session routes leave the identity collection as it was. *)
Theorem C10_collections_are_framed (env : Env) (r : Request) (fs : FileState) :
  match r with
  | Register _ | Login _ | UpdateIdentity _ | GetIdentity _ =>
      stored_sessions (handle env r fs).2 = stored_sessions fs
  | UpsertSession _ | DeleteSession _ =>
      identities (handle env r fs).2 = identities fs
  | ListSessions _ => (handle env r fs).2 = fs
  end.
Proof. apply handle_frames. Qed.

(** *** The element [find] and [findIndex] pick *)

Section FirstWith.
Context {A : Type}.
Implicit Types (p : A → bool) (l : list A).

Lemma first_with_unique p l i j x y :
  first_with p l i x → first_with p l j y → i = j ∧ x = y.
Proof.
  intros (Hi & Hx & Hlti) (Hj & Hy & Hltj).
  destruct (Nat.lt_trichotomy i j) as [Hlt|[->|Hlt]].
  - specialize (Hltj _ _ Hlt Hi). congruence.
  - split; [done|congruence].
  - specialize (Hlti _ _ Hlt Hj). congruence.
Qed.

Lemma findIndex_first_with p l i :
  findIndex p l = Some i ↔ ∃ x, first_with p l i x.
Proof.
  split; [apply findIndex_Some|].
  intros [x Hx]. destruct (findIndex p l) as [k|] eqn:Ek.
  - destruct (findIndex_Some _ _ _ Ek) as (y & Hy).
    by destruct (first_with_unique _ _ _ _ _ _ Hx Hy) as [-> _].
  - destruct Hx as (Hi & Hp & _).
    pose proof (proj1 (findIndex_None p l) Ek x) as Hno.
    rewrite Hno in Hp; [done|]. apply list_elem_of_lookup. eauto.
Qed.

Lemma find_first_with p l x :
  find p l = Some x ↔ ∃ i, first_with p l i x.
Proof.
  split; [apply find_Some|].
  intros [i Hx]. rewrite find_findIndex.
  rewrite (proj2 (findIndex_first_with p l i) (ex_intro _ x Hx)). simpl. apply Hx.
Qed.

End FirstWith.

(** *** Login *)

(** C6: with a phone and a password in the request, login answers 404
    exactly when no stored identity has that phone, 401 exactly when the
    first identity with that phone stores another password, and otherwise
    200 with that identity less its password; the file is never changed. *)
Theorem C6_login_signals (req : gmap string Value) (fs : FileState) :
  truthy (req !! "phone") = true →
  truthy (req !! "password") = true →
  let has_phone := λ u : gmap string Value, strict_eq (u !! "phone") (req !! "phone") in
  let same_password := λ u : gmap string Value, strict_eq (u !! "password") (req !! "password") in
  (login req fs).2 = fs ∧
  (status (login req fs).1 = 404 ↔ ∀ u, u ∈ identities fs → has_phone u = false) ∧
  (status (login req fs).1 = 401 ↔
     ∃ i u, first_with has_phone (identities fs) i u ∧ same_password u = false) ∧
  (∀ i u, first_with has_phone (identities fs) i u → same_password u = true →
     (login req fs).1 = json (VObj (delete "password" u)) ∧
     delete "password" u !! "password" = None).
Proof.
  intros Hphone Hpass has_phone same_password.
  unfold login, identities. rewrite Hphone, Hpass. simpl.
  fold has_phone.
  destruct (find has_phone (users (getDb fs))) as [user|] eqn:Ef.
  - pose proof Ef as Hfirst. apply find_first_with in Hfirst as [k Hk].
    assert (∀ i u, first_with has_phone (users (getDb fs)) i u → u = user) as Huniq.
    { intros i u Hu. by destruct (first_with_unique _ _ _ _ _ _ Hu Hk). }
    fold (same_password user).
    destruct (same_password user) eqn:Es; simpl.
    + split_and!; [done| | |].
      * split; [done|]. intros Hall. destruct Hk as (Hl & Hp & _).
        rewrite (Hall user) in Hp; [done|]. apply list_elem_of_lookup. eauto.
      * split; [done|]. intros (i & u & Hu & Hne). rewrite (Huniq _ _ Hu) in Hne. congruence.
      * intros i u Hu _. rewrite (Huniq _ _ Hu). split; [done|]. apply lookup_delete_eq.
    + split_and!; [done| | |].
      * split; [done|]. intros Hall. destruct Hk as (Hl & Hp & _).
        rewrite (Hall user) in Hp; [done|]. apply list_elem_of_lookup. eauto.
      * split; [|done]. intros _. eauto.
      * intros i u Hu Hsame. rewrite (Huniq _ _ Hu) in Hsame. congruence.
  - pose proof (proj1 (find_None _ _) Ef) as Hnone. simpl.
    split_and!; [done| | |].
    + split; [|done]. intros _. exact Hnone.
    + split; [done|]. intros (i & u & (Hl & Hp & _) & _).
      rewrite (Hnone u) in Hp; [done|]. apply list_elem_of_lookup. eauto.
    + intros i u (Hl & Hp & _) _.
      rewrite (Hnone u) in Hp; [done|]. apply list_elem_of_lookup. eauto.
Qed.


(** *** UpdateIdentity *)

Lemma update_found env req fs i :
  truthy (req !! "id") = true →
  findIndex (λ u : gmap string Value, strict_eq (u !! "id") (req !! "id")) (identities fs) = Some i →
  update env req fs =
    (json (VObj req),
     (saveDb env
        (mkDb (<[i := set_prop "password" ((identities fs !! i) ≫= (.!! "password")) req]>
                 (identities fs))
              (stored_sessions fs)) fs).2).
Proof.
  intros Hid Hi. unfold update, identities, stored_sessions in *.
  rewrite Hid, Hi. simpl. by destruct (saveDb _ _ _).
Qed.

Lemma set_prop_lookup k v (o : gmap string Value) : set_prop k v o !! k = v.
Proof. destruct v; simpl; [apply lookup_insert_eq|apply lookup_delete_eq]. Qed.

Lemma set_prop_lookup_ne k k' v (o : gmap string Value) :
  k ≠ k' → set_prop k v o !! k' = o !! k'.
Proof. intros Hne. destruct v; simpl; [by apply lookup_insert_ne|by apply lookup_delete_ne]. Qed.

(** C4: an update whose id matches a stored identity answers 200 with the
    request as it came; the identity keeps the password it had, whatever the
    request carries; no other identity changes; and once the write has
    succeeded every other field of the identity is the request's. *)
Theorem C4_update_preserves_password
    (env : Env) (req : gmap string Value) (fs : FileState) (i : nat) (u : gmap string Value) :
  truthy (req !! "id") = true →
  first_with (λ u : gmap string Value, strict_eq (u !! "id") (req !! "id")) (identities fs) i u →
  let fs' := (update env req fs).2 in
  (update env req fs).1 = json (VObj req) ∧
  (identities fs' !! i) ≫= (.!! "password") = u !! "password" ∧
  (∀ j, j ≠ i → identities fs' !! j = identities fs !! j) ∧
  length (identities fs') = length (identities fs) ∧
  stored_sessions fs' = stored_sessions fs ∧
  (write_ok env = true →
     ∃ u', identities fs' !! i = Some u' ∧
           ∀ k, k ≠ "password" → u' !! k = req !! k).
Proof.
  intros Hid Hfirst fs'.
  assert (findIndex (λ u : gmap string Value, strict_eq (u !! "id") (req !! "id"))
            (identities fs) = Some i) as Hi.
  { apply findIndex_first_with. eauto. }
  destruct Hfirst as (Hu & _ & _).
  assert (i < length (identities fs)) as Hlen by (by eapply lookup_lt_Some).
  subst fs'. rewrite (update_found _ _ _ _ Hid Hi). simpl.
  rewrite !identities_saveDb, !sessions_saveDb. simpl. rewrite Hu. simpl.
  destruct (write_ok env) eqn:Hw.
  - split_and!; [done| | | |done|].
    + rewrite list_lookup_insert_eq by done. simpl. apply set_prop_lookup.
    + intros j Hj. by rewrite list_lookup_insert_ne.
    + apply length_insert.
    + intros _. eexists. split; [by apply list_lookup_insert_eq|].
      intros k Hk. by apply set_prop_lookup_ne.
  - split_and!; [done| | done | done | done | done].
    by rewrite Hu.
Qed.

(** *** DeleteSession *)

Lemma deleteSession_spec env id fs :
  let has_id := λ s : gmap string Value, strict_eq (s !! "id") (Some (VStr id)) in
  let kept := filter (λ s, negb (has_id s)) (stored_sessions fs) in
  deleteSession env id fs =
    if decide (length kept = length (stored_sessions fs))
    then (error_response 404 "Session not found", fs)
    else (json (VObj {[ "success" := VBool true ]}),
          (saveDb env (mkDb (identities fs) kept) fs).2).
Proof.
  intros has_id kept. unfold deleteSession. fold (stored_sessions fs). simpl.
  change (filter _ (stored_sessions fs)) with kept.
  case_decide as Hlen.
  - rewrite Hlen, Nat.eqb_refl. done.
  - apply Nat.eqb_neq in Hlen. rewrite Hlen. simpl. by destruct (saveDb _ _ _).
Qed.

(** C8: deleting an id that no stored session has answers 404 and leaves
    the file as it was; deleting an id that some session has answers with
    the success acknowledgment, and once the write has succeeded the file
    holds the sessions that do not have the id, in their order, and the
    identities as they were. *)
Theorem C8_delete_session (env : Env) (id : string) (fs : FileState) :
  let has_id := λ s : gmap string Value, strict_eq (s !! "id") (Some (VStr id)) in
  let res := (deleteSession env id fs).1 in
  let fs' := (deleteSession env id fs).2 in
  ((∀ s, s ∈ stored_sessions fs → has_id s = false) →
     status res = 404 ∧ fs' = fs ∧
     stored_sessions fs' = stored_sessions fs ∧
     length (stored_sessions fs') = length (stored_sessions fs)) ∧
  ((∃ s, s ∈ stored_sessions fs ∧ has_id s = true) →
     res = json (VObj {[ "success" := VBool true ]}) ∧
     (write_ok env = true →
        fs' = Holds (PDoc (Some (identities fs))
                          (Some (filter (λ s, negb (has_id s)) (stored_sessions fs)))) ∧
        (∀ s, s ∈ stored_sessions fs' ↔ s ∈ stored_sessions fs ∧ has_id s = false) ∧
        length (stored_sessions fs') < length (stored_sessions fs))).
Proof.
  intros has_id res fs'. subst res fs'.
  pose proof (deleteSession_spec env id fs) as Hspec. simpl in Hspec. fold has_id in Hspec.
  rewrite Hspec. clear Hspec.
  set (kept := filter (λ s, negb (has_id s)) (stored_sessions fs)).
  split.
  - intros Hnone. rewrite decide_True; [done|].
    subst kept. rewrite filter_all; [done|]. intros s Hs.
    change (negb (has_id s) = true). by rewrite (Hnone s Hs).
  - intros (s & Hs & Hid).
    assert (length kept ≠ length (stored_sessions fs)) as Hne.
    { intros Heq. pose proof (filter_length_eq _ _ Heq s Hs) as Hkeep.
      change (negb (has_id s) = true) in Hkeep. by rewrite Hid in Hkeep. }
    pose proof (filter_length_le (λ s, negb (has_id s)) (stored_sessions fs)) as Hle.
    fold kept in Hle.
    rewrite decide_False by done. cbn [fst snd]. split; [done|].
    intros Hw. rewrite saveDb_ok by done. cbn [fst snd users sessions].
    rewrite !sessions_saved. change (filter _ (stored_sessions fs)) with kept.
    split_and!; [done| |lia].
    intros s'. subst kept. rewrite elem_of_filter. by rewrite negb_true_iff.
Qed.


(** *** UpsertSession *)

Lemma upsertSession_spec env session fs :
  upsertSession env session fs =
    (json (VObj session),
     (saveDb env (mkDb (identities fs) (upserted session (stored_sessions fs))) fs).2).
Proof.
  unfold upsertSession, upserted, identities, stored_sessions.
  cbv zeta. destruct (findIndex _ _); by destruct (saveDb _ _ _).
Qed.

Lemma upsertSession_sessions env session fs :
  stored_sessions (upsertSession env session fs).2 =
  if write_ok env then upserted session (stored_sessions fs) else stored_sessions fs.
Proof. rewrite upsertSession_spec. cbn [snd]. by rewrite sessions_saveDb. Qed.

Section Counting.
Implicit Types (l : list (gmap string Value)) (v : option Value).

Lemma count_with_app k v l1 l2 :
  count_with k v (l1 ++ l2) = count_with k v l1 + count_with k v l2.
Proof. unfold count_with. by rewrite filter_app, length_app. Qed.

Lemma count_with_none k v l :
  (∀ s, s ∈ l → strict_eq (s !! k) v = false) → count_with k v l = 0.
Proof. intros Hall. unfold count_with. by rewrite filter_none. Qed.


Lemma count_with_elem k v l s :
  s ∈ l → strict_eq (s !! k) v = true → 1 ≤ count_with k v l.
Proof.
  intros Hin Hs. unfold count_with.
  assert (s ∈ filter (λ o, strict_eq (o !! k) v) l) as Hf by (by apply elem_of_filter).
  destruct (filter _ l); [by apply elem_of_nil in Hf|simpl; lia].
Qed.



Lemma elem_of_upserted session l : session ∈ upserted session l.
Proof.
  unfold upserted. destruct (findIndex _ l) as [i|] eqn:Ei.
  - apply findIndex_Some in Ei as (x & Hx & _).
    apply list_elem_of_lookup. exists i. apply list_lookup_insert_eq.
    by eapply lookup_lt_Some.
  - apply elem_of_app. right. apply list_elem_of_here.
Qed.

End Counting.








(** *** Register *)

Lemma register_conflict env req fs u :
  truthy (req !! "phone") = true → truthy (req !! "password") = true →
  truthy (req !! "name") = true →
  u ∈ identities fs → strict_eq (u !! "phone") (req !! "phone") = true →
  register env req fs = (error_response 409 "این شماره تلفن قبلا ثبت شده است.", fs).
Proof.
  intros Hp Hw Hn Hin Hu. unfold register, identities in *. rewrite Hp, Hw, Hn. simpl.
  destruct (find _ (users (getDb fs))) as [x|] eqn:Ef; [done|].
  rewrite (proj1 (find_None _ _) Ef u Hin) in Hu. done.
Qed.

Lemma register_fresh env req fs :
  truthy (req !! "phone") = true → truthy (req !! "password") = true →
  truthy (req !! "name") = true →
  (∀ u, u ∈ identities fs → strict_eq (u !! "phone") (req !! "phone") = false) →
  let u := newUser env (req !! "phone") (req !! "password") (req !! "name") in
  register env req fs =
    if write_ok env
    then (json (VObj (delete "password" u)),
          Holds (PDoc (Some (identities fs ++ [u])) (Some (stored_sessions fs))))
    else (error_response 500 "خطا در ذخیره سازی", fs).
Proof.
  intros Hp Hw Hn Hnone u. unfold register, identities, stored_sessions in *.
  rewrite Hp, Hw, Hn. simpl.
  rewrite (proj2 (find_None _ _) Hnone). unfold saveDb. by destruct (write_ok env).
Qed.

Lemma newUser_phone env phone password name :
  newUser env phone password name !! "phone" = phone.
Proof.
  unfold newUser. rewrite !set_prop_lookup_ne by done. apply set_prop_lookup.
Qed.

(** C5, as the code has it: of two register calls with the same phone, the
    first of which did not end in a storage failure, the second answers 409
    and leaves the file as it was, and the file then holds exactly one
    identity with that phone if it held at most one before the pair; a call
    whose phone no identity has, and whose write succeeds, appends one
    identity with the time as its id and the default fields, and answers
    with that identity less its password. *)
Theorem C5_register_rejects_a_known_phone
    (env1 env2 : Env) (req1 req2 : gmap string Value) (fs : FileState) :
  truthy (req1 !! "phone") = true → truthy (req1 !! "password") = true →
  truthy (req1 !! "name") = true →
  truthy (req2 !! "phone") = true → truthy (req2 !! "password") = true →
  truthy (req2 !! "name") = true →
  strict_eq (req1 !! "phone") (req2 !! "phone") = true →
  let phone := req1 !! "phone" in
  let first := register env1 req1 fs in
  let second := register env2 req2 first.2 in
  (status first.1 ≠ 500 →
     status second.1 = 409 ∧ second.2 = first.2 ∧
     (count_with "phone" phone (identities fs) ≤ 1 →
        count_with "phone" phone (identities second.2) = 1)) ∧
  ((∀ u, u ∈ identities fs → strict_eq (u !! "phone") phone = false) →
   write_ok env1 = true →
     let u := newUser env1 (req1 !! "phone") (req1 !! "password") (req1 !! "name") in
     first.1 = json (VObj (delete "password" u)) ∧
     delete "password" u !! "password" = None ∧
     first.2 = Holds (PDoc (Some (identities fs ++ [u])) (Some (stored_sessions fs))) ∧
     identities first.2 = identities fs ++ [u] ∧
     u !! "id" = Some (VStr (pretty (date_now env1))) ∧
     u !! "phone" = req1 !! "phone" ∧
     u !! "password" = req1 !! "password" ∧
     u !! "name" = req1 !! "name" ∧
     u !! "email" = Some (VStr "") ∧
     u !! "bio" = Some (VStr "کاربر جدید") ∧
     u !! "joinedDate" = Some (VStr (date_faIR env1)) ∧
     u !! "learnedData" = Some (VArr []) ∧
     u !! "traits" = Some (VArr []) ∧
     u !! "customInstructions" = Some (VStr "")).
Proof.
  intros Hp1 Hw1 Hn1 Hp2 Hw2 Hn2 Hsame phone first second.
  assert (strict_eq phone phone = true) as Hrefl by (by eapply strict_eq_refl_l).
  apply strict_eq_true in Hsame. fold phone in Hsame.
  assert (∀ f u, u ∈ identities f → strict_eq (u !! "phone") phone = true →
            register env2 req2 f = (error_response 409 "این شماره تلفن قبلا ثبت شده است.", f))
    as Hconflict.
  { intros f u Hin Hu. apply (register_conflict _ _ _ u); try done. by rewrite <- Hsame. }
  split.
  - intros Hnot500.
    destruct (find (λ u, strict_eq (u !! "phone") phone) (identities fs)) as [x|] eqn:Ef.
    + apply find_first_with in Ef as (i & Hx & Hpx & _).
      assert (x ∈ identities fs) as Hin by (apply list_elem_of_lookup; eauto).
      assert (first = (error_response 409 "این شماره تلفن قبلا ثبت شده است.", fs)) as Hfirst.
      { subst first. by apply (register_conflict _ _ _ x). }
      subst second. rewrite Hfirst. cbn [fst snd]. rewrite (Hconflict fs x Hin Hpx).
      cbn [fst snd]. split_and!; [done|done|].
      intros Hle. apply Nat.le_antisymm; [done|]. by apply (count_with_elem _ _ _ x).
    + pose proof (proj1 (find_None _ _) Ef) as Hnone.
      pose proof (register_fresh env1 req1 fs Hp1 Hw1 Hn1 Hnone) as Hfresh.
      cbv zeta in Hfresh. fold first in Hfresh.
      destruct (write_ok env1).
      * set (u := newUser env1 (req1 !! "phone") (req1 !! "password") (req1 !! "name")) in *.
        assert (u ∈ identities first.2) as Hin.
        { rewrite Hfresh. cbn [snd]. rewrite identities_saved.
          apply elem_of_app. right. apply list_elem_of_here. }
        assert (strict_eq (u !! "phone") phone = true) as Hu.
        { subst u. rewrite newUser_phone. by fold phone. }
        subst second. rewrite (Hconflict first.2 u Hin Hu). cbn [fst snd].
        split_and!; [done|done|]. intros _.
        rewrite Hfresh. cbn [snd]. rewrite identities_saved, count_with_app.
        rewrite (count_with_none _ _ _ Hnone).
        unfold count_with. simpl. by rewrite Hu.
      * rewrite Hfresh in Hnot500. by destruct Hnot500.
  - intros Hnone Hok u.
    pose proof (register_fresh env1 req1 fs Hp1 Hw1 Hn1 Hnone) as Hfresh.
    cbv zeta in Hfresh. fold first in Hfresh. rewrite Hok in Hfresh. fold u in Hfresh.
    rewrite Hfresh. cbn [fst snd]. rewrite identities_saved.
    split_and!;
      first [ apply lookup_delete_eq
            | subst u; unfold newUser; rewrite ?set_prop_lookup_ne by done;
              apply set_prop_lookup
            | done ].
Qed.


(** *** The theorems at work on sample requests *)

Section Samples.
Import Scenario.

Lemma first_with_head {A : Type} (p : A → bool) (x : A) (l : list A) :
  p x = true → first_with p (x :: l) 0 x.
Proof. intros Hp. split_and!; [done|done|]. intros j y Hj. lia. Defined.

(** From the file the server can reach by two registrations and one update,
    two register calls with the phone 0912: the second answers 409, and the
    file holds two identities with that phone. *)
Lemma C5_counterexample_two_identities_one_phone :
  let first := register (at_time 4000) reza two_identities_one_phone in
  let second := register (at_time 5000) reza first.2 in
  status second.1 = 409 ∧
  count_with "phone" (Some (VStr "0912")) (identities second.2) = 2.
Proof. vm_compute. split; reflexivity. Qed.

Lemma C5_witness :
  status (register (at_time 2000) reza (register (at_time 1000) ali fresh_file).2).1 = 409.
Proof.
  pose proof (C5_register_rejects_a_known_phone (at_time 1000) (at_time 2000) ali reza fresh_file
                eq_refl eq_refl eq_refl eq_refl eq_refl eq_refl eq_refl) as H.
  cbv zeta in H. destruct H as [H _]. apply H. vm_compute. discriminate.
Defined.

Lemma C4_witness :
  (identities (update (at_time 3000) ali_renamed ali_registered).2 !! 0) ≫= (.!! "password")
  = ali_stored !! "password".
Proof.
  pose proof (C4_update_preserves_password (at_time 3000) ali_renamed ali_registered 0 ali_stored
                eq_refl) as H.
  cbv zeta in H. apply H. apply (first_with_head _ ali_stored []). vm_compute. reflexivity.
Defined.

Lemma C6_witness :
  status (login (credentials "0912" "wrong" "Ali") ali_registered).1 = 401.
Proof.
  pose proof (C6_login_signals (credentials "0912" "wrong" "Ali") ali_registered
                eq_refl eq_refl) as H.
  cbv zeta in H. destruct H as (_ & _ & H & _). apply H.
  exists 0, ali_stored. split; [|vm_compute; reflexivity].
  apply (first_with_head _ ali_stored []). vm_compute. reflexivity.
Defined.


Lemma C8_witness :
  status (deleteSession (at_time 5000) "s2" one_session).1 = 404 ∧
  (deleteSession (at_time 5000) "s2" one_session).2 = one_session.
Proof.
  pose proof (C8_delete_session (at_time 5000) "s2" one_session) as H.
  cbv zeta in H. destruct H as [H _].
  assert (∀ s, s ∈ stored_sessions one_session →
               strict_eq (s !! "id") (Some (VStr "s2")) = false) as Hnone.
  { intros s Hs. change (stored_sessions one_session) with [chat "s1" "1000" "first"] in Hs.
    apply list_elem_of_singleton in Hs as ->. vm_compute. reflexivity. }
  destruct (H Hnone) as (H1 & H2 & _). by split.
Defined.

End Samples.

End ServerFacts.

(** ** The audio bridge *)

Module BridgeFacts.
Import Bridge.
#[local] Open Scope nat_scope.
#[local] Open Scope list_scope.

Section Hook.
Context {T : Type} `{Seconds T}.
Variable decodeAudioData : string → T.

Abbreviation Hook := (@Hook T).
Abbreviation reachable := (reachable decodeAudioData).
Abbreviation react := (react decodeAudioData).
Abbreviation onmessage := (onmessage decodeAudioData).
Abbreviation audioChunkReaction := (audioChunkReaction decodeAudioData).
Abbreviation play := (play decodeAudioData).

(** *** Stopping sources *)

Lemma stop_length i (l : list (@AudioBufferSourceNode T)) : length (stop i l) = length l.
Proof. unfold stop. destruct (l !! i); [apply length_insert|done]. Qed.

Lemma stop_lookup_eq i (l : list (@AudioBufferSourceNode T)) :
  i < length l → ∃ s, stop i l !! i = Some s ∧ stopped s = true.
Proof.
  intros Hi. unfold stop. destruct (l !! i) as [s|] eqn:Es.
  - eexists. split; [by apply list_lookup_insert_eq|done].
  - apply lookup_ge_None in Es. lia.
Qed.

Lemma stop_keeps_stopped i j (l : list (@AudioBufferSourceNode T)) s :
  l !! j = Some s → stopped s = true → ∃ s', stop i l !! j = Some s' ∧ stopped s' = true.
Proof.
  intros Hj Hs. unfold stop. destruct (l !! i) as [x|] eqn:Ex; [|eauto].
  destruct (decide (i = j)) as [->|Hne].
  - eexists. split; [apply list_lookup_insert_eq; by eapply lookup_lt_Some|done].
  - exists s. by rewrite list_lookup_insert_ne.
Qed.

Lemma stop_all_length (ids : list nat) (l : list (@AudioBufferSourceNode T)) :
  length (foldr stop l ids) = length l.
Proof. induction ids as [|i ids IH]; simpl; [done|]. by rewrite stop_length. Qed.

Lemma stop_all_stops (ids : list nat) (l : list (@AudioBufferSourceNode T)) i :
  i ∈ ids → i < length l → ∃ s, foldr stop l ids !! i = Some s ∧ stopped s = true.
Proof.
  intros Hin Hi. induction ids as [|j ids IH]; [by apply elem_of_nil in Hin|]. simpl.
  destruct (decide (i = j)) as [->|Hne].
  - apply stop_lookup_eq. by rewrite stop_all_length.
  - apply elem_of_cons in Hin as [?|Hin]; [done|].
    destruct (IH Hin) as (s & Hs & Hstopped). by eapply stop_keeps_stopped.
Qed.

(** *** The reactions, field by field *)

Lemma toolCallReaction_fields msg (st : Hook) :
  ∃ sent, toolCallReaction msg st =
    mkHook (isConnected st) (isSpeaking st) (error st) (inputAudioContextRef st)
           (outputAudioContextRef st) (sessionPromiseRef st) (nextStartTimeRef st)
           (sourcesRef st) (nodes st) (toolResponses st ++ sent).
Proof.
  unfold toolCallReaction. destruct (toolCall msg) as [calls|].
  - revert st. induction calls as [|fc calls IH]; intros st; simpl.
    + exists []. rewrite app_nil_r. by destruct st.
    + destruct (String.eqb (fc_name fc) "search_knowledge_base").
      * destruct (IH (sendToolResponse
                        (mkFunctionResponse (fc_id fc) (fc_name fc)
                           (getLocalKnowledge (fc_query fc))) st)) as [sent ->].
        simpl. eexists. by rewrite <- app_assoc.
      * apply IH.
  - exists []. rewrite app_nil_r. by destruct st.
Qed.

(** What the audio-chunk reaction does to a hook that has an output
    context, up to the tool responses sent before it. *)
Lemma onmessage_audio msg (st : Hook) data ctx :
  base64Audio msg = Some data →
  outputAudioContextRef st = Some ctx →
  let start := max (nextStartTimeRef st) (currentTime ctx) in
  ∃ st1,
    audioChunkReaction msg (toolCallReaction msg st) = Continue st1 ∧
    onmessage msg st = interruptionReaction msg st1 ∧
    nodes st1 = nodes st ++ [mkSource (decodeAudioData data) start false] ∧
    nextStartTimeRef st1 = add start (decodeAudioData data) ∧
    sourcesRef st1 = {[length (nodes st)]} ∪ sourcesRef st ∧
    isSpeaking st1 = true ∧
    outputAudioContextRef st1 = Some ctx ∧
    sessionPromiseRef st1 = sessionPromiseRef st ∧
    isConnected st1 = isConnected st.
Proof.
  intros Hdata Hctx start.
  destruct (toolCallReaction_fields msg st) as [sent Htool].
  unfold onmessage, audioChunkReaction. rewrite Htool, Hdata. simpl. rewrite Hctx.
  eexists. split; [reflexivity|]. simpl. by split_and!.
Qed.

Lemma onmessage_no_audio msg (st : Hook) :
  base64Audio msg = None →
  onmessage msg st = interruptionReaction msg (toolCallReaction msg st).
Proof. intros Hnone. unfold onmessage, audioChunkReaction. by rewrite Hnone. Qed.

(** *** What every reachable hook satisfies *)

Lemma interruptionReaction_consistent msg (st : Hook) :
  consistent st → consistent (interruptionReaction msg st).
Proof.
  intros [Hctx Hsrc]. unfold interruptionReaction. destruct (interrupted msg); [|done].
  split; simpl; [done|]. intros i Hi. by apply elem_of_empty in Hi.
Qed.

Lemma onmessage_consistent msg (st : Hook) :
  consistent st → consistent (onmessage msg st).
Proof.
  intros [Hctx Hsrc].
  destruct (base64Audio msg) as [data|] eqn:Hdata.
  - destruct (outputAudioContextRef st) as [ctx|] eqn:Ectx.
    + destruct (onmessage_audio msg st data ctx Hdata Ectx)
        as (st1 & _ & -> & Hnodes & _ & Hsources & _ & Hctx1 & Hsess & _).
      apply interruptionReaction_consistent. split.
      * intros _. by rewrite Hctx1.
      * intros i. rewrite Hsources, Hnodes, length_app. simpl.
        intros [->%elem_of_singleton|Hi]%elem_of_union; [lia|].
        specialize (Hsrc i Hi). lia.
    + destruct (toolCallReaction_fields msg st) as [sent Htool].
      unfold onmessage, Bridge.audioChunkReaction. rewrite Htool, Hdata. simpl. rewrite Ectx.
      split; simpl; [|done]. intros Hs. by destruct (Hctx Hs).
  - rewrite onmessage_no_audio by done. apply interruptionReaction_consistent.
    destruct (toolCallReaction_fields msg st) as [sent ->]. by split.
Qed.

Lemma react_consistent ev (st : Hook) :
  consistent st → consistent (react ev st).
Proof.
  intros Hst. destruct ev as [o| | |msg| | |source|dt]; simpl.
  - destruct Hst as [Hctx Hsrc]. destruct o; split; simpl; eauto.
  - destruct Hst as [Hctx Hsrc]. split; simpl; [|done].
    intros Hs. destruct (Hctx Hs) as [ctx ->]. simpl. eauto.
  - done.
  - by apply onmessage_consistent.
  - done.
  - done.
  - destruct Hst as [Hctx Hsrc]. unfold onended. simpl.
    case_decide; split; simpl; try done; intros i [? _]%elem_of_difference; by apply Hsrc.
  - destruct Hst as [Hctx Hsrc]. split; simpl; [|done].
    intros Hs. destruct (Hctx Hs) as [ctx ->]. simpl. eauto.
Qed.

Lemma reachable_consistent (st : Hook) : reachable st → consistent st.
Proof.
  induction 1 as [|st ev _ IH _].
  - split; simpl; [done|]. intros i Hi. by apply elem_of_empty in Hi.
  - by apply react_consistent.
Qed.


(** *** Interruption *)

Lemma interruptionReaction_interrupted msg (st : Hook) :
  interrupted msg = true →
  (∀ i, i ∈ sourcesRef st → i < length (nodes st)) →
  sourcesRef (interruptionReaction msg st) = ∅ ∧
  nextStartTimeRef (interruptionReaction msg st) = zero ∧
  isSpeaking (interruptionReaction msg st) = false ∧
  (∀ i, i ∈ sourcesRef st →
     ∃ s, nodes (interruptionReaction msg st) !! i = Some s ∧ stopped s = true).
Proof.
  intros Hint Hsrc. unfold interruptionReaction. rewrite Hint. simpl.
  split_and!; [done|done|done|].
  intros i Hi. apply stop_all_stops; [by apply elem_of_elements|by apply Hsrc].
Qed.

(** C2: in every state the hook can reach, a message that signals
    interruption leaves the active set empty, the cursor at zero and
    speaking false, and every source that was active (and the one the
    message itself may have scheduled) has been stopped. *)
Theorem C2_interruption_clears_playback (st : Hook) (msg : LiveServerMessage) :
  reachable st →
  enabled (Message msg) st →
  interrupted msg = true →
  let st' := react (Message msg) st in
  sourcesRef st' = ∅ ∧
  nextStartTimeRef st' = zero ∧
  isSpeaking st' = false ∧
  (∀ i, i ∈ sourcesRef st → ∃ s, nodes st' !! i = Some s ∧ stopped s = true) ∧
  (is_Some (base64Audio msg) →
     ∃ s, nodes st' !! length (nodes st) = Some s ∧ stopped s = true).
Proof.
  intros Hreach Hsession Hint st'. subst st'. simpl in Hsession |- *.
  destruct (reachable_consistent st Hreach) as [Hctx Hsrc].
  destruct (Hctx Hsession) as [ctx Ectx].
  destruct (base64Audio msg) as [data|] eqn:Hdata.
  - destruct (onmessage_audio msg st data ctx Hdata Ectx)
      as (st1 & _ & -> & Hnodes & _ & Hsources & _).
    assert (∀ i, i ∈ sourcesRef st1 → i < length (nodes st1)) as Hsrc1.
    { intros i. rewrite Hsources, Hnodes, length_app. simpl.
      intros [->%elem_of_singleton|Hi]%elem_of_union; [lia|].
      specialize (Hsrc i Hi). lia. }
    destruct (interruptionReaction_interrupted msg st1 Hint Hsrc1) as (H1 & H2 & H3 & H4).
    split_and!; [done|done|done| |].
    + intros i Hi. apply H4. rewrite Hsources. apply elem_of_union. by right.
    + intros _. apply H4. rewrite Hsources. apply elem_of_union. left.
      by apply elem_of_singleton.
  - rewrite onmessage_no_audio by done.
    destruct (toolCallReaction_fields msg st) as [sent Htool].
    assert (∀ i, i ∈ sourcesRef (toolCallReaction msg st) →
                 i < length (nodes (toolCallReaction msg st))) as Hsrc1.
    { rewrite Htool. simpl. exact Hsrc. }
    destruct (interruptionReaction_interrupted msg _ Hint Hsrc1) as (H1 & H2 & H3 & H4).
    split_and!; [done|done|done| |].
    + intros i Hi. apply H4. rewrite Htool. simpl. done.
    + intros [x Hx]. done.
Qed.

(** *** Chaining audio chunks *)

Lemma react_between_chunks ev (st : Hook) :
  between_chunks ev →
  nextStartTimeRef (react ev st) = nextStartTimeRef st ∧
  nodes (react ev st) = nodes st.
Proof.
  destruct ev; simpl; try done.
  intros _. unfold onended. simpl. by case_decide.
Qed.

Lemma play_between_chunks evs (st : Hook) :
  Forall between_chunks evs →
  nextStartTimeRef (play evs st) = nextStartTimeRef st ∧
  nodes (play evs st) = nodes st.
Proof.
  intros Hall. revert st. induction Hall as [|ev evs Hev _ IH]; intros st; [done|].
  unfold Bridge.play in *. simpl. destruct (IH (react ev st)) as [-> ->].
  by apply react_between_chunks.
Qed.

Lemma onended_sources source (st : Hook) :
  sourcesRef (onended source st) = sourcesRef st ∖ {[source]}.
Proof. unfold onended. simpl. by case_decide. Qed.

Lemma onended_speaking source (st : Hook) :
  isSpeaking (onended source st) = true ↔
  isSpeaking st = true ∧ sourcesRef st ∖ {[source]} ≠ ∅.
Proof.
  unfold onended. simpl. case_decide as Hsize; simpl.
  - apply size_empty_inv, leibniz_equiv in Hsize. split; [done|]. by intros [_ ?].
  - split; [|by intros [? _]]. intros Hs. split; [done|].
    intros Hempty. apply Hsize. rewrite Hempty. apply size_empty.
Qed.

(** The only events that turn speaking off. *)
Lemma speaking_turns_false ev (st : Hook) :
  isSpeaking st = true → isSpeaking (react ev st) = false →
  match ev with
  | Ended source => sourcesRef st ∖ {[source]} = ∅
  | Message msg => interrupted msg = true
  | Closed | Disconnect => True
  | Connect _ | Open | Errored | Elapse _ => False
  end.
Proof.
  intros Hon. destruct ev as [o| | |msg| | |source|dt]; simpl; try done.
  - destruct o; simpl; congruence.
  - congruence.
  - destruct (base64Audio msg) as [data|] eqn:Hdata.
    + destruct (toolCallReaction_fields msg st) as [sent Htool].
      unfold Bridge.onmessage, Bridge.audioChunkReaction. rewrite Htool, Hdata. simpl.
      destruct (outputAudioContextRef st); simpl; [|done].
      unfold interruptionReaction. by destruct (interrupted msg).
    + rewrite onmessage_no_audio by done.
      destruct (toolCallReaction_fields msg st) as [sent ->].
      unfold interruptionReaction. destruct (interrupted msg); simpl; [done|congruence].
  - congruence.
  - intros Hoff. destruct (decide (sourcesRef st ∖ {[source]} = ∅)) as [|Hne]; [done|].
    pose proof (proj2 (onended_speaking source st) (conj Hon Hne)). congruence.
  - congruence.
Qed.

(** C1: a message with an audio payload, on a hook that has its output
    context, creates one source, starts it at the later of the cursor and
    the context's clock, moves the cursor to that start plus the buffer's
    duration, adds the source to the active set and sets speaking; what the
    handler does after that is the interruption reaction alone. When the
    message is no interruption and the next chunk comes while the clock has
    not passed the end of this one, the next source starts exactly at this
    start plus this duration. An ended source leaves speaking true unless
    the active set without it is empty, and besides interruption, close and
    disconnect no other event turns speaking off. *)
Theorem C1_audio_chunks_are_chained
    (msg : LiveServerMessage) (st : Hook) (data : string) (ctx : AudioContext) :
  base64Audio msg = Some data →
  outputAudioContextRef st = Some ctx →
  let start := max (nextStartTimeRef st) (currentTime ctx) in
  let finish := add start (decodeAudioData data) in
  ∃ st1,
    audioChunkReaction msg (toolCallReaction msg st) = Continue st1 ∧
    onmessage msg st = interruptionReaction msg st1 ∧
    nodes st1 = nodes st ++ [mkSource (decodeAudioData data) start false] ∧
    nextStartTimeRef st1 = finish ∧
    sourcesRef st1 = {[length (nodes st)]} ∪ sourcesRef st ∧
    (consistent st → length (nodes st) ∉ sourcesRef st) ∧
    isSpeaking st1 = true ∧
    (interrupted msg = false →
       onmessage msg st = st1 ∧
       ∀ evs msg2 data2 ctx2,
         Forall between_chunks evs →
         base64Audio msg2 = Some data2 →
         outputAudioContextRef (play evs (onmessage msg st)) = Some ctx2 →
         le (currentTime ctx2) finish →
         ∃ st2,
           audioChunkReaction msg2 (toolCallReaction msg2 (play evs (onmessage msg st)))
             = Continue st2 ∧
           nodes st2 = nodes st ++ [mkSource (decodeAudioData data) start false;
                                    mkSource (decodeAudioData data2) finish false] ∧
           nextStartTimeRef st2 = add finish (decodeAudioData data2) ∧
           isSpeaking st2 = true) ∧
    (∀ source (st0 : Hook),
       sourcesRef (onended source st0) = sourcesRef st0 ∖ {[source]} ∧
       (isSpeaking (onended source st0) = true ↔
        isSpeaking st0 = true ∧ sourcesRef st0 ∖ {[source]} ≠ ∅)) ∧
    (∀ ev (st0 : Hook),
       isSpeaking st0 = true → isSpeaking (react ev st0) = false →
       match ev with
       | Ended source => sourcesRef st0 ∖ {[source]} = ∅
       | Message msg' => interrupted msg' = true
       | Closed | Disconnect => True
       | Connect _ | Open | Errored | Elapse _ => False
       end).
Proof.
  intros Hdata Hctx start finish.
  destruct (onmessage_audio msg st data ctx Hdata Hctx)
    as (st1 & Haudio & Hmsg & Hnodes & Hnext & Hsources & Hspeaking & _).
  exists st1. split_and!; try done.
  - intros [_ Hsrc] Hin. specialize (Hsrc _ Hin). lia.
  - intros Hno.
    assert (onmessage msg st = st1) as Hst1.
    { rewrite Hmsg. unfold interruptionReaction. by rewrite Hno. }
    split; [done|]. rewrite Hst1.
    intros evs msg2 data2 ctx2 Hquiet Hdata2 Hctx2 Hle.
    destruct (play_between_chunks evs st1 Hquiet) as [Hnext' Hnodes'].
    destruct (onmessage_audio msg2 (play evs st1) data2 ctx2 Hdata2 Hctx2)
      as (st2 & Haudio2 & _ & Hnodes2 & Hnext2 & _ & Hspeaking2 & _).
    cbv zeta in Hnodes2, Hnext2.
    rewrite Hnext', Hnext in Hnext2. rewrite Hnext', Hnext, Hnodes', Hnodes in Hnodes2.
    pose proof (max_l _ _ Hle) as Hmax. unfold finish, start in Hmax |- *.
    rewrite Hmax in Hnext2, Hnodes2.
    exists st2. split_and!; [done| |done|done].
    rewrite Hnodes2. by rewrite <- app_assoc.
  - intros source st0. split; [apply onended_sources|apply onended_speaking].
  - apply speaking_turns_false.
Qed.

End Hook.


(** *** The theorems at work on sample messages *)

Section Samples.
Import Scenario.

Lemma C1_witness :
  ∃ st1 : @Hook Z,
    onmessage one_unit_per_character (chunk "AAAA") connected
      = interruptionReaction (chunk "AAAA") st1 ∧
    nextStartTimeRef st1 = 4%Z ∧
    sourcesRef st1 = {[0]} ∪ ∅.
Proof.
  destruct (C1_audio_chunks_are_chained one_unit_per_character (chunk "AAAA") connected
              "AAAA" (mkContext 0%Z false) eq_refl eq_refl)
    as (st1 & _ & Hmsg & _ & Hnext & Hsources & _).
  exists st1. split_and!; [exact Hmsg|exact Hnext|exact Hsources].
Defined.

Lemma C2_witness :
  let playing := react one_unit_per_character (Message (chunk "AAAA")) connected in
  sourcesRef (react one_unit_per_character (Message interruption) playing) = ∅ ∧
  nextStartTimeRef (react one_unit_per_character (Message interruption) playing) = 0%Z ∧
  isSpeaking (react one_unit_per_character (Message interruption) playing) = false.
Proof.
  intros playing.
  assert (reachable one_unit_per_character playing) as Hreach.
  { apply (reachable_step _ _ (Message (chunk "AAAA"))); [|reflexivity].
    apply (reachable_step _ initial (Connect Established)); [|exact I].
    apply reachable_initial. }
  destruct (C2_interruption_clears_playback one_unit_per_character playing interruption
              Hreach eq_refl eq_refl) as (H1 & H2 & H3 & _).
  split_and!; [exact H1|exact H2|exact H3].
Defined.

End Samples.

End BridgeFacts.

(** ** More on the persistence service *)

Module ServerExtras.
Import Js JsFacts Server ServerFacts.
#[local] Open Scope nat_scope.
#[local] Open Scope list_scope.

(** *** Writes that fail *)




(** *** Passwords *)

(** X2: whatever register, login and the identity lookup answer, success or
    error, the object they send has no password property. *)
Theorem responses_carry_no_password (env : Env) (fs : FileState) :
  (∀ req o, body (register env req fs).1 = VObj o → o !! "password" = None) ∧
  (∀ req o, body (login req fs).1 = VObj o → o !! "password" = None) ∧
  (∀ id o, body (getUser id fs).1 = VObj o → o !! "password" = None).
Proof.
  assert (∀ code msg o, body (error_response code msg) = VObj o → o !! "password" = None)
    as Herror.
  { intros code msg o [= <-]. by apply lookup_singleton_ne. }
  assert (∀ (u o : gmap string Value),
            body (json (VObj (delete "password" u))) = VObj o → o !! "password" = None)
    as Hsafe.
  { intros u o [= <-]. apply lookup_delete_eq. }
  split_and!.
  - intros req o. unfold register.
    destruct (negb _ || negb _ || negb _); [apply Herror|].
    destruct (find _ _); [apply Herror|].
    unfold saveDb. destruct (write_ok env); [apply Hsafe|apply Herror].
  - intros req o. unfold login.
    destruct (negb _ || negb _); [apply Herror|].
    destruct (find _ _); [|apply Herror].
    destruct (negb _); [apply Herror|apply Hsafe].
  - intros id o. unfold getUser.
    destruct (find _ _); [apply Hsafe|apply Herror].
Qed.

(** *** Round trips *)

Lemma register_appends env req fs :
  truthy (req !! "phone") = true → truthy (req !! "password") = true →
  truthy (req !! "name") = true →
  (∀ u, u ∈ identities fs → strict_eq (u !! "phone") (req !! "phone") = false) →
  write_ok env = true →
  let u := newUser env (req !! "phone") (req !! "password") (req !! "name") in
  register env req fs =
    (json (VObj (delete "password" u)),
     Holds (PDoc (Some (identities fs ++ [u])) (Some (stored_sessions fs)))).
Proof.
  intros Hp Hw Hn Hnone Hok u.
  pose proof (register_fresh env req fs Hp Hw Hn Hnone) as Hfresh.
  cbv zeta in Hfresh. by rewrite Hok in Hfresh.
Qed.

Lemma find_app_r {A : Type} (p : A → bool) (l1 l2 : list A) :
  (∀ x, x ∈ l1 → p x = false) → find p (l1 ++ l2) = find p l2.
Proof.
  unfold find. induction l1 as [|a l1 IH]; intros Hall; simpl; [done|].
  rewrite (Hall a (list_elem_of_here _ _)). apply IH.
  intros x Hx. apply Hall. by apply list_elem_of_further.
Qed.

Lemma find_app_l {A : Type} (p : A → bool) (l1 l2 : list A) x :
  find p l1 = Some x → find p (l1 ++ l2) = Some x.
Proof.
  unfold find. induction l1 as [|a l1 IH]; simpl; [done|].
  destruct (p a); [done|]. apply IH.
Qed.


Lemma newUser_id env phone password name :
  newUser env phone password name !! "id" = Some (VStr (pretty (date_now env))).
Proof. unfold newUser. rewrite !set_prop_lookup_ne by done. apply set_prop_lookup. Qed.


(** X4: once a registration with a new phone has been written, the lookup
    by the generated id gets the response the registration got, provided no
    older identity has that id; when an older identity has it (it was
    registered in the same millisecond) the lookup answers with the older
    one. *)
Theorem generated_id_finds_the_oldest_holder
    (env : Env) (req : gmap string Value) (fs : FileState) :
  truthy (req !! "phone") = true → truthy (req !! "password") = true →
  truthy (req !! "name") = true →
  (∀ u, u ∈ identities fs → strict_eq (u !! "phone") (req !! "phone") = false) →
  write_ok env = true →
  let id := pretty (date_now env) in
  let registered := register env req fs in
  ((∀ u, u ∈ identities fs → u !! "id" ≠ Some (VStr id)) →
     getUser id registered.2 = registered) ∧
  (∀ i older, first_with (λ u : gmap string Value, strict_eq (u !! "id") (Some (VStr id)))
                (identities fs) i older →
     getUser id registered.2 = (json (VObj (delete "password" older)), registered.2)).
Proof.
  intros Hp Hw Hn Hnone Hok id registered.
  pose proof (register_appends env req fs Hp Hw Hn Hnone Hok) as Hreg.
  cbv zeta in Hreg. fold registered in Hreg.
  set (u := newUser env (req !! "phone") (req !! "password") (req !! "name")) in *.
  unfold getUser. fold (identities registered.2).
  rewrite Hreg. cbn [snd]. rewrite identities_saved. split.
  - intros Hfresh. rewrite find_app_r.
    + unfold find. simpl. subst u. by rewrite newUser_id, strict_eq_str.
    + intros x Hx. specialize (Hfresh x Hx).
      destruct (strict_eq (x !! "id") (Some (VStr id))) eqn:E; [|done].
      by apply strict_eq_true in E.
  - intros i older Hfirst.
    by rewrite (find_app_l _ _ _ older (proj2 (find_first_with _ _ older) (ex_intro _ i Hfirst))).
Qed.

(** *** Sessions *)

Lemma filter_insert_out {A : Type} (p : A → bool) (l : list A) i x y :
  l !! i = Some x → p x = false → p y = false → filter p (<[i := y]> l) = filter p l.
Proof.
  unfold filter. revert i. induction l as [|a l IH]; intros i; [done|].
  destruct i as [|i]; simpl.
  - intros [= ->] Hx Hy. by rewrite Hx, Hy.
  - intros Hi Hx Hy. by rewrite (IH _ Hi Hx Hy).
Qed.

Lemma deleteSession_sessions env id fs :
  write_ok env = true →
  stored_sessions (deleteSession env id fs).2 =
  filter (λ s, negb (strict_eq (s !! "id") (Some (VStr id)))) (stored_sessions fs).
Proof.
  intros Hok. pose proof (deleteSession_spec env id fs) as Hspec. cbv zeta in Hspec.
  rewrite Hspec. case_decide as Hlen.
  - cbn [snd]. symmetry. apply filter_all. by apply filter_length_eq.
  - cbn [snd]. by rewrite sessions_saveDb, Hok.
Qed.

(** X5: an upsert of a session with a string id followed by the delete of
    that id, both written, answers the delete with the success
    acknowledgment and leaves the sessions that did not have the id, in
    their order: the sessions as they were when the id was new. *)
Theorem delete_undoes_upsert
    (env1 env2 : Env) (session : gmap string Value) (id : string) (fs : FileState) :
  session !! "id" = Some (VStr id) →
  write_ok env1 = true → write_ok env2 = true →
  let upserted_file := (upsertSession env1 session fs).2 in
  let deleted := deleteSession env2 id upserted_file in
  deleted.1 = json (VObj {[ "success" := VBool true ]}) ∧
  stored_sessions deleted.2 =
    filter (λ s, negb (strict_eq (s !! "id") (Some (VStr id)))) (stored_sessions fs) ∧
  ((∀ s, s ∈ stored_sessions fs → s !! "id" ≠ Some (VStr id)) →
     stored_sessions deleted.2 = stored_sessions fs) ∧
  identities deleted.2 = identities fs.
Proof.
  intros Hid Hok1 Hok2 upserted_file deleted.
  set (out := λ s : gmap string Value, negb (strict_eq (s !! "id") (Some (VStr id)))).
  assert (out session = false) as Hout.
  { unfold out. by rewrite Hid, strict_eq_str. }
  assert (stored_sessions upserted_file = upserted session (stored_sessions fs)) as Hup.
  { subst upserted_file. by rewrite upsertSession_sessions, Hok1. }
  assert (filter out (upserted session (stored_sessions fs)) = filter out (stored_sessions fs))
    as Hfilter.
  { unfold upserted. destruct (findIndex _ _) as [i|] eqn:Ei.
    - apply findIndex_Some in Ei as (x & Hx & Hsame & _).
      apply (filter_insert_out _ _ _ x); [done| |done].
      unfold out. apply strict_eq_true in Hsame. by rewrite Hsame, Hid, strict_eq_str.
    - rewrite filter_app. unfold filter at 2. simpl. rewrite Hout. apply app_nil_r. }
  assert (stored_sessions deleted.2 = filter out (stored_sessions fs)) as Hdel.
  { subst deleted. rewrite deleteSession_sessions by done. fold out. by rewrite Hup. }
  split_and!.
  - subst deleted. pose proof (deleteSession_spec env2 id upserted_file) as Hspec.
    cbv zeta in Hspec. rewrite Hspec. fold out. rewrite decide_False; [done|].
    intros Hlen. pose proof (filter_length_eq _ _ Hlen session) as Hkeep.
    rewrite Hout in Hkeep. specialize (Hkeep ltac:(rewrite Hup; apply elem_of_upserted)).
    done.
  - done.
  - intros Hnew. rewrite Hdel. apply filter_all. intros s Hs. unfold out.
    destruct (strict_eq (s !! "id") (Some (VStr id))) eqn:E; [|done].
    apply strict_eq_true in E. by destruct (Hnew s Hs).
  - subst deleted upserted_file.
    pose proof (handle_frames env2 (DeleteSession id) (upsertSession env1 session fs).2) as H2.
    pose proof (handle_frames env1 (UpsertSession session) fs) as H1.
    simpl in H1, H2. by rewrite H2, H1.
Qed.

(** *** What every reachable file satisfies *)





(** *** The theorems at work on sample requests *)

Section Samples.
Import Scenario.

Lemma nobody_registered (P : gmap string Value → Prop) :
  ∀ u, u ∈ identities fresh_file → P u.
Proof. intros u Hu. by apply elem_of_nil in Hu. Defined.


Lemma generated_id_finds_the_oldest_holder_witness :
  getUser "1000" (register (at_time 1000) ali fresh_file).2
  = register (at_time 1000) ali fresh_file.
Proof.
  pose proof (generated_id_finds_the_oldest_holder (at_time 1000) ali fresh_file
                eq_refl eq_refl eq_refl (nobody_registered _) eq_refl) as H.
  cbv zeta in H. destruct H as [H _]. apply H. apply nobody_registered.
Defined.

Lemma delete_undoes_upsert_witness :
  stored_sessions
    (deleteSession (at_time 6000) "s2"
       (upsertSession (at_time 5000) (chat "s2" "1000" "second") one_session).2).2
  = stored_sessions one_session.
Proof.
  pose proof (delete_undoes_upsert (at_time 5000) (at_time 6000) (chat "s2" "1000" "second")
                "s2" one_session eq_refl eq_refl eq_refl) as H.
  cbv zeta in H. destruct H as (_ & _ & H & _). apply H.
  intros s Hs. change (stored_sessions one_session) with [chat "s1" "1000" "first"] in Hs.
  apply list_elem_of_singleton in Hs as ->. vm_compute. discriminate.
Defined.


End Samples.

End ServerExtras.

(** ** More on the audio bridge *)

Module BridgeExtras.
Import Bridge BridgeFacts Vocabulary.
#[local] Open Scope nat_scope.
#[local] Open Scope list_scope.

Section Hook.
Context {T : Type} `{Seconds T}.
Variable decodeAudioData : string → T.

Abbreviation Hook := (@Hook T).
Abbreviation reachable := (reachable decodeAudioData).
Abbreviation react := (react decodeAudioData).
Abbreviation onmessage := (onmessage decodeAudioData).
Abbreviation audioChunkReaction := (audioChunkReaction decodeAudioData).

(** *** Tool calls *)

Lemma toolCallReaction_answers msg (st : Hook) :
  toolCallReaction msg st =
    mkHook (isConnected st) (isSpeaking st) (error st) (inputAudioContextRef st)
           (outputAudioContextRef st) (sessionPromiseRef st) (nextStartTimeRef st)
           (sourcesRef st) (nodes st) (toolResponses st ++ answers msg).
Proof.
  unfold toolCallReaction, answers. destruct (toolCall msg) as [calls|].
  - revert st. induction calls as [|fc calls IH]; intros st; simpl.
    + rewrite app_nil_r. by destruct st.
    + destruct (String.eqb (fc_name fc) "search_knowledge_base"); [|apply IH].
      rewrite IH. simpl. by rewrite <- app_assoc.
  - rewrite app_nil_r. by destruct st.
Qed.

Lemma interruptionReaction_toolResponses msg (st : Hook) :
  toolResponses (interruptionReaction msg st) = toolResponses st.
Proof. unfold interruptionReaction. by destruct (interrupted msg). Qed.

(** X7: whatever else a message carries, the handler sends exactly one
    tool response for every call named search_knowledge_base, in the order
    of the calls, each with the id and name of its call and the canned text
    for its query; calls of any other name get no response; and a message
    that has only tool calls changes nothing else in the hook. *)
Theorem tool_calls_are_answered_in_order (msg : LiveServerMessage) (st : Hook) :
  toolResponses (onmessage msg st) = toolResponses st ++ answers msg ∧
  (∀ r, r ∈ answers msg →
     fr_name r = "search_knowledge_base" ∧
     ∃ fc calls, toolCall msg = Some calls ∧ fc ∈ calls ∧
                 fr_id r = fc_id fc ∧ fr_result r = getLocalKnowledge (fc_query fc)) ∧
  (∀ calls, toolCall msg = Some calls →
     length (answers msg) ≤ length calls ∧
     ((∀ fc, fc ∈ calls → fc_name fc ≠ "search_knowledge_base") → answers msg = [])) ∧
  (base64Audio msg = None → interrupted msg = false →
     onmessage msg st = toolCallReaction msg st ∧
     isSpeaking (onmessage msg st) = isSpeaking st ∧
     nextStartTimeRef (onmessage msg st) = nextStartTimeRef st ∧
     sourcesRef (onmessage msg st) = sourcesRef st ∧
     nodes (onmessage msg st) = nodes st).
Proof.
  split_and!.
  - unfold Bridge.onmessage, Bridge.audioChunkReaction.
    rewrite toolCallReaction_answers.
    destruct (base64Audio msg); simpl.
    + destruct (outputAudioContextRef st); simpl; [|done].
      by rewrite interruptionReaction_toolResponses.
    + by rewrite interruptionReaction_toolResponses.
  - intros r. unfold answers. destruct (toolCall msg) as [calls|]; [|by intros ?%elem_of_nil].
    intros (fc & -> & Hfc)%list_elem_of_fmap.
    apply list_elem_of_In, List.filter_In in Hfc as [Hin Hname].
    apply String.eqb_eq in Hname. simpl. split; [done|].
    exists fc, calls. split_and!; try done. by apply list_elem_of_In.
  - intros calls Hcalls. unfold answers. rewrite Hcalls, length_fmap. split.
    + apply List.filter_length_le.
    + intros Hnone.
      pose proof (JsFacts.filter_none
                    (λ fc, String.eqb (fc_name fc) "search_knowledge_base") calls) as Hfilter.
      unfold Js.filter in Hfilter. rewrite Hfilter; [done|].
      intros fc Hfc. apply String.eqb_neq. by apply Hnone.
  - intros Hnone Hno. rewrite (onmessage_no_audio decodeAudioData) by done.
    unfold interruptionReaction. rewrite Hno.
    rewrite toolCallReaction_answers. done.
Qed.

(** *** What every reachable hook satisfies *)

Lemma interruptionReaction_playing msg (st : Hook) :
  playing_consistently st → playing_consistently (interruptionReaction msg st).
Proof.
  intros Hst. unfold interruptionReaction. destruct (interrupted msg); [|done].
  split; simpl; [|done]. intros i Hi. by apply elem_of_empty in Hi.
Qed.

Lemma react_playing ev (st : Hook) :
  consistent st → enabled ev st → playing_consistently st →
  playing_consistently (react ev st).
Proof.
  intros [Hctx Hsrc] Hen [Hnodes Hspeak].
  destruct ev as [o| | |msg| | |source|dt]; simpl in *.
  - by destruct o.
  - done.
  - done.
  - destruct (Hctx Hen) as [ctx Ectx].
    destruct (base64Audio msg) as [data|] eqn:Hdata.
    + destruct (onmessage_audio decodeAudioData msg st data ctx Hdata Ectx)
        as (st1 & _ & -> & Hn1 & _ & Hs1 & Hsp1 & _).
      apply interruptionReaction_playing. split.
      * intros i. rewrite Hs1, Hn1.
        intros [->%elem_of_singleton|Hi]%elem_of_union.
        -- eexists. split; [apply list_lookup_middle; done|done].
        -- destruct (Hnodes i Hi) as (s & Hs & Hst). exists s.
           split; [by apply lookup_app_l_Some|done].
      * intros _. rewrite Hs1. intros Hempty.
        assert (length (nodes st) ∈ (∅ : gset nat)) as Hin; [|by apply elem_of_empty in Hin].
        rewrite <- Hempty. apply elem_of_union. left. by apply elem_of_singleton.
    + rewrite (onmessage_no_audio decodeAudioData) by done.
      apply interruptionReaction_playing.
      destruct (toolCallReaction_fields msg st) as [sent ->]. by split.
  - done.
  - done.
  - unfold onended. simpl. case_decide as Hsize; split; simpl; try done.
    + intros i [Hi _]%elem_of_difference. by apply Hnodes.
    + intros i [Hi _]%elem_of_difference. by apply Hnodes.
    + intros _ Hempty. apply Hsize. rewrite Hempty. apply size_empty.
  - done.
Qed.

(** X8: in every state the hook can reach, each active source is a node
    that exists and has not been stopped, and speaking is on only while some
    source is active. *)
Theorem speaking_needs_an_active_source (st : Hook) :
  reachable st →
  (∀ i, i ∈ sourcesRef st → ∃ s, nodes st !! i = Some s ∧ stopped s = false) ∧
  (isSpeaking st = true → sourcesRef st ≠ ∅).
Proof.
  induction 1 as [|st ev Hreach IH Hen].
  - split; simpl; [|done]. intros i Hi. by apply elem_of_empty in Hi.
  - apply react_playing; [by apply (reachable_consistent decodeAudioData)|done|done].
Qed.

(** *** The cursor across interruptions and reconnects *)



End Hook.

(** *** The theorems at work on sample messages *)

Section Samples.
Import Scenario.

Lemma speaking_needs_an_active_source_witness :
  let playing := react one_unit_per_character (Message (chunk "AAAA")) connected in
  ∃ s, nodes playing !! 0 = Some s ∧ stopped s = false.
Proof.
  intros playing.
  assert (reachable one_unit_per_character playing) as Hreach.
  { apply (reachable_step _ _ (Message (chunk "AAAA"))); [|reflexivity].
    apply (reachable_step _ initial (Connect Established)); [|exact I].
    apply reachable_initial. }
  destruct (speaking_needs_an_active_source one_unit_per_character playing Hreach) as [Hnodes _].
  apply Hnodes. vm_compute. reflexivity.
Defined.


End Samples.

End BridgeExtras.
